(** * eaopt: construction of the GA orchestrator

    A shallow embedding of [ga_config.go]: the [GAConfig] struct, the method
    [GAConfig.NewGA] with the heap objects it allocates, and
    [NewDefaultGAConfig].  Go statements are computations over an explicit
    program state that may panic or return early.  The properties of
    construction follow, and last their instances on concrete inputs. *)

From Stdlib Require Import ZArith NArith String.
From stdpp Require Import base option list gmap strings.

Local Open Scope string_scope.
Local Open Scope list_scope.

(** ** Go values *)

(** Heap addresses.  A Go pointer, and likewise a func value, is [None] (nil)
    or [Some l] for the address [l] of the object it refers to. *)
Abbreviation loc := positive.

(** The [error] interface.  [None] is the nil error; a non-nil error carries
    the text its [Error()] method reports. *)
Record errorString : Type := { Error : string }.
Definition error : Type := option errorString.

(** The comparison [x == nil]. *)
Definition is_nil {A : Type} (x : option A) : bool :=
  match x with
  | None => true
  | Some _ => false
  end.

(** [errors.New(text)]. *)
Definition errors_New (text : string) : error := Some {| Error := text |}.

(** [Model], [Migrator] and [Speciator] are interfaces declared outside
    [ga_config.go]; the one method [NewGA] calls on them is [Validate() error]. *)
Class Validator (T : Type) : Type := Validate : T -> error.

(** A [*rand.Rand] object: the seed of its source and the number of values
    drawn from it since, which together fix its state.  [NewGA] only
    creates such objects; drawing is the business of genome factories. *)
Record Rand : Type := { Rand_seed : Z; Rand_draws : N }.

(** The object [rand.New(rand.NewSource(seed))] builds. *)
Definition seeded (seed : Z) : Rand := {| Rand_seed := seed; Rand_draws := 0 |}.

(** Interface method calls that [NewGA] performs, in the order performed. *)
Inductive Event : Type :=
| EvModelValidate
| EvMigratorValidate
| EvSpeciatorValidate.

(** How a statement ends, when it does not panic: it falls through with
    a value, or executes a [return] of the enclosing function, whose result
    type is [R]. *)
Inductive Flow (R A : Type) : Type :=
| Next (a : A)
| Return (r : R).
Arguments Next {R A} a.
Arguments Return {R A} r.

Section Engine.

(** The types the file refers to but does not declare.  [MSAFields] stands
    for the fields of [ModSimulatedAnnealing] other than [GA]; [OtherModel]
    for the dynamic types of a [Model] other than [ModSimulatedAnnealing];
    [GAFields] for the fields of [GA] besides the embedded [GAConfig], and
    [zeroGAFields] for their zero values. *)
Context {MSAFields OtherModel Migrator Speciator GAFields : Type}.
Context (zeroGAFields : GAFields).

(** [ModSimulatedAnnealing]; [msa_GA] is its field [GA *GA]. *)
Record ModSimulatedAnnealing : Type := {
  msa_fields : MSAFields;
  msa_GA : option loc
}.

Context `{!Validator ModSimulatedAnnealing, !Validator OtherModel,
          !Validator Migrator, !Validator Speciator}.

(** A non-nil value of interface type [Model]: its dynamic type is either
    [ModSimulatedAnnealing] or another one. *)
Inductive Model : Type :=
| ModelMSA (msa : ModSimulatedAnnealing)
| ModelOther (m : OtherModel).

#[export] Instance Model_Validator : Validator Model := fun m =>
  match m with
  | ModelMSA msa => Validate msa
  | ModelOther o => Validate o
  end.

(** [GAConfig].  A [uint] field is a natural number (below [2^64] in Go;
    [NewGA] only compares these fields with 0, so the bound plays no part);
    fields of interface, pointer and func type are options.  The fields
    [Model], [Migrator] and [Speciator] carry the prefix [conf_], their names
    being those of types. *)
Record GAConfig : Type := {
  (* Required fields *)
  NPops : N;
  PopSize : N;
  NGenerations : N;
  HofSize : N;
  conf_Model : option Model;
  (* Optional fields *)
  ParallelInit : bool;
  ParallelEval : bool;
  conf_Migrator : option Migrator;
  MigFrequency : N;
  conf_Speciator : option Speciator;
  Logger : option loc;
  Callback : option loc;
  EarlyStop : option loc;
  RNG : option loc;
  GenomeJSONUnmarshaler : option loc
}.

(** The assignment [conf.RNG = r]. *)
Definition set_RNG (r : option loc) (conf : GAConfig) : GAConfig :=
  {| NPops := NPops conf; PopSize := PopSize conf;
     NGenerations := NGenerations conf; HofSize := HofSize conf;
     conf_Model := conf_Model conf;
     ParallelInit := ParallelInit conf; ParallelEval := ParallelEval conf;
     conf_Migrator := conf_Migrator conf; MigFrequency := MigFrequency conf;
     conf_Speciator := conf_Speciator conf;
     Logger := Logger conf; Callback := Callback conf;
     EarlyStop := EarlyStop conf; RNG := r;
     GenomeJSONUnmarshaler := GenomeJSONUnmarshaler conf |}.

(** The assignment [conf.Model = m]. *)
Definition set_Model (m : option Model) (conf : GAConfig) : GAConfig :=
  {| NPops := NPops conf; PopSize := PopSize conf;
     NGenerations := NGenerations conf; HofSize := HofSize conf;
     conf_Model := m;
     ParallelInit := ParallelInit conf; ParallelEval := ParallelEval conf;
     conf_Migrator := conf_Migrator conf; MigFrequency := MigFrequency conf;
     conf_Speciator := conf_Speciator conf;
     Logger := Logger conf; Callback := Callback conf;
     EarlyStop := EarlyStop conf; RNG := RNG conf;
     GenomeJSONUnmarshaler := GenomeJSONUnmarshaler conf |}.

(** [GA]: the embedded [GAConfig] and the remaining fields. *)
Record GA : Type := {
  ga_GAConfig : GAConfig;
  ga_fields : GAFields
}.

(** ** The program state *)

(** The clock, the heap objects by type and address, the [GAConfig]
    variables of callers, and the interface calls made so far. *)
Record World : Type := {
  unixNano : Z;                 (* what [time.Now().UnixNano()] reads *)
  rands : gmap loc Rand;        (* the [rand.Rand] objects *)
  gas : gmap loc GA;            (* the [GA] objects *)
  vars : gmap loc GAConfig;     (* the callers' [GAConfig] variables *)
  trace : list Event            (* interface calls made so far, latest first *)
}.

(** A statement either panics ([None]) or ends in a next state, where it
    has fallen through with a value ([Next]) or executed a [return]
    ([Return]) of the enclosing function, whose result type is [R]. *)
Definition Stmt (R A : Type) : Type := World -> option (Flow R A * World).

#[export] Instance Stmt_ret {R} : MRet (Stmt R) := fun A (a : A) w => Some (Next a, w).
#[export] Instance Stmt_bind {R} : MBind (Stmt R) :=
  fun A B (f : A -> Stmt R B) (s : Stmt R A) w =>
    match s w with
    | Some (Next a, w') => f a w'
    | Some (Return r, w') => Some (Return r, w')
    | None => None
    end.

(** [return r]. *)
Definition return_ {R A : Type} (r : R) : Stmt R A := fun w => Some (Return r, w).

(** [if b { s }]. *)
Definition when {R : Type} (b : bool) (s : Stmt R unit) : Stmt R unit :=
  if b then s else mret tt.

(** A function body run to its result: falling off the end yields the
    body's value. *)
Definition run {R : Type} (body : Stmt R R) : World -> option (R * World) := fun w =>
  match body w with
  | Some (Next r, w') | Some (Return r, w') => Some (r, w')
  | None => None
  end.

(** Updates of one component of the state. *)
Definition set_trace (t : list Event) (w : World) : World :=
  {| unixNano := unixNano w; rands := rands w; gas := gas w; vars := vars w;
     trace := t |}.
Definition set_rands (h : gmap loc Rand) (w : World) : World :=
  {| unixNano := unixNano w; rands := h; gas := gas w; vars := vars w;
     trace := trace w |}.
Definition set_gas (h : gmap loc GA) (w : World) : World :=
  {| unixNano := unixNano w; rands := rands w; gas := h; vars := vars w;
     trace := trace w |}.

(** [time.Now().UnixNano()]. *)
Definition time_Now_UnixNano {R} : Stmt R Z := fun w => Some (Next (unixNano w), w).

(** [rand.New(rand.NewSource(seed))]: a new [Rand] object. *)
Definition rand_New {R} (seed : Z) : Stmt R loc := fun w =>
  let l := fresh (dom (rands w)) in
  Some (Next l, set_rands (<[l := seeded seed]> (rands w)) w).

(** [&GA{GAConfig: conf}]: a new [GA] object, its other fields zero. *)
Definition new_GA {R} (conf : GAConfig) : Stmt R loc := fun w =>
  let l := fresh (dom (gas w)) in
  Some (Next l, set_gas (<[l := {| ga_GAConfig := conf; ga_fields := zeroGAFields |}]> (gas w)) w).

(** [ga.GAConfig.Model = m] through the pointer [ga]; a nil or dangling
    pointer panics. *)
Definition store_Model {R} (ga : loc) (m : Model) : Stmt R unit := fun w =>
  match gas w !! ga with
  | Some g =>
      Some (Next tt,
            set_gas (<[ga := {| ga_GAConfig := set_Model (Some m) (ga_GAConfig g);
                                ga_fields := ga_fields g |}]> (gas w)) w)
  | None => None
  end.

(** The call [x.Validate()] on a value [x] of interface type: it panics on
    the nil interface. *)
Definition call_Validate {R T : Type} `{!Validator T} (ev : Event) (x : option T)
  : Stmt R error := fun w =>
    match x with
    | Some v => Some (Next (Validate v), set_trace (ev :: trace w) w)
    | None => None
    end.

(** The type assertion [m.(ModSimulatedAnnealing)] in its two-valued form:
    [Some msa] stands for [(msa, true)]. *)
Definition as_ModSimulatedAnnealing (m : option Model) : option ModSimulatedAnnealing :=
  match m with
  | Some (ModelMSA msa) => Some msa
  | _ => None
  end.

(** The assignment [msa.GA = ga]. *)
Definition set_GA (ga : option loc) (msa : ModSimulatedAnnealing) : ModSimulatedAnnealing :=
  {| msa_fields := msa_fields msa; msa_GA := ga |}.

(** ** [NewGA] *)

(** The body of the method [NewGA] of [GAConfig]; [conf] is the value
    receiver, a copy of the caller's configuration. *)
Definition NewGA_body (conf : GAConfig) : Stmt (option loc * error) (option loc * error) :=
  (* Check for default values *)
  conf ← (if is_nil (RNG conf) then
            seed ← time_Now_UnixNano;
            r ← rand_New seed;
            mret (set_RNG (Some r) conf)
          else mret conf);
  (* Check the configuration is valid *)
  when (NPops conf =? 0)%N
    (return_ (None, errors_New "NPops has to be strictly higher than 0"));;
  when (PopSize conf =? 0)%N
    (return_ (None, errors_New "PopSize has to be strictly higher than 0"));;
  when (NGenerations conf =? 0)%N
    (return_ (None, errors_New "NGenerations has to be strictly higher than 0"));;
  when (HofSize conf =? 0)%N
    (return_ (None, errors_New "HofSize has to be strictly higher than 0"));;
  when (is_nil (conf_Model conf))
    (return_ (None, errors_New "model has to be provided"));;
  modelErr ← call_Validate EvModelValidate (conf_Model conf);
  when (negb (is_nil modelErr)) (return_ (None, modelErr));;
  when (negb (is_nil (conf_Migrator conf)))
    (migErr ← call_Validate EvMigratorValidate (conf_Migrator conf);
     when (negb (is_nil migErr)) (return_ (None, migErr));;
     when (MigFrequency conf =? 0)%N
       (return_ (None, errors_New "MigFrequency should be higher than 0")));;
  when (negb (is_nil (conf_Speciator conf)))
    (specErr ← call_Validate EvSpeciatorValidate (conf_Speciator conf);
     when (negb (is_nil specErr)) (return_ (None, specErr)));;
  (* Initialize the GA *)
  ga ← new_GA conf;
  (* As a special case, point ModSimulatedAnnealing to the GA *)
  match as_ModSimulatedAnnealing (conf_Model conf) with
  | Some msa =>
      let msa := set_GA (Some ga) msa in
      store_Model ga (ModelMSA msa)
  | None => mret tt
  end;;
  (* Return the GA *)
  return_ (Some ga, None).

(** The method [NewGA] of [GAConfig]: its [GA] pointer and [error] results
    and the next state, or [None] for a panic. *)
Definition NewGA (conf : GAConfig) : World -> option ((option loc * error) * World) :=
  run (NewGA_body conf).

(** The call [c.NewGA()] on a caller's variable [c]: the receiver is the
    value the variable holds. *)
Definition call_NewGA (c : loc) : World -> option ((option loc * error) * World) := fun w =>
  match vars w !! c with
  | Some conf => NewGA conf w
  | None => None
  end.

(** [NewDefaultGAConfig]; [modGenerational] stands for its literal
    [ModGenerational{Selector: SelTournament{NContestants: 3}, MutRate: 0.5,
    CrossRate: 0.7}], whose type is declared elsewhere. *)
Definition NewDefaultGAConfig (modGenerational : OtherModel) : GAConfig :=
  {| NPops := 1;
     PopSize := 30;
     HofSize := 1;
     NGenerations := 50;
     conf_Model := Some (ModelOther modGenerational);
     ParallelEval := false;
     (* the remaining fields have their zero values *)
     ParallelInit := false;
     conf_Migrator := None; MigFrequency := 0;
     conf_Speciator := None;
     Logger := None; Callback := None; EarlyStop := None; RNG := None;
     GenomeJSONUnmarshaler := None |}.

(** ** Vocabulary of the statements *)

(** The texts of the errors [NewGA] builds itself. *)
Definition NewGA_messages : list string :=
  [ "NPops has to be strictly higher than 0";
    "PopSize has to be strictly higher than 0";
    "NGenerations has to be strictly higher than 0";
    "HofSize has to be strictly higher than 0";
    "model has to be provided";
    "MigFrequency should be higher than 0" ].

(** The required fields are in order: the four sizes are non-zero and a
    [Model] is present whose [Validate] returns nil. *)
Definition required_ok (conf : GAConfig) : Prop :=
  NPops conf ≠ 0%N ∧ PopSize conf ≠ 0%N ∧ NGenerations conf ≠ 0%N ∧
  HofSize conf ≠ 0%N ∧ ∃ m, conf_Model conf = Some m ∧ Validate m = None.

(** A [Migrator], if present, validates and comes with [MigFrequency > 0]. *)
Definition migrator_ok (conf : GAConfig) : Prop :=
  ∀ g, conf_Migrator conf = Some g → Validate g = None ∧ MigFrequency conf ≠ 0%N.

(** A [Speciator], if present, validates. *)
Definition speciator_ok (conf : GAConfig) : Prop :=
  ∀ s, conf_Speciator conf = Some s → Validate s = None.

(** A valid configuration: every precondition of construction holds. *)
Definition valid (conf : GAConfig) : Prop :=
  required_ok conf ∧ migrator_ok conf ∧ speciator_ok conf.

(** The [Validate] call made on the [Migrator], if one is present. *)
Definition Migrator_calls (conf : GAConfig) : list Event :=
  if is_nil (conf_Migrator conf) then [] else [EvMigratorValidate].

(** The [Validate] call made on the [Speciator], if one is present. *)
Definition Speciator_calls (conf : GAConfig) : list Event :=
  if is_nil (conf_Speciator conf) then [] else [EvSpeciatorValidate].

(** ** Summary of [NewGA]

    The three phases of [NewGA_body] as pure functions; [NewGA] is shown
    below to compute exactly their composition. *)

(** First phase: the default [RNG]. *)
Definition default_RNG (conf : GAConfig) (w : World) : GAConfig * World :=
  match RNG conf with
  | None =>
      let r := fresh (dom (rands w)) in
      (set_RNG (Some r) conf,
       set_rands (<[r := seeded (unixNano w)]> (rands w)) w)
  | Some _ => (conf, w)
  end.

(** The check of the [Speciator], and the checks from the [Migrator] on. *)
Definition check_Speciator (conf : GAConfig) : list Event * error :=
  match conf_Speciator conf with
  | Some s => ([EvSpeciatorValidate], Validate s)
  | None => ([], None)
  end.

Definition check_Migrator (conf : GAConfig) : list Event * error :=
  match conf_Migrator conf with
  | Some g =>
      match Validate g with
      | Some e => ([EvMigratorValidate], Some e)
      | None =>
          if (MigFrequency conf =? 0)%N
          then ([EvMigratorValidate], errors_New "MigFrequency should be higher than 0")
          else let '(evs, r) := check_Speciator conf in (evs ++ [EvMigratorValidate], r)
      end
  | None => check_Speciator conf
  end.

(** Second phase: the [Validate] calls made, latest first, and the error
    returned, nil when every check passes. *)
Definition check (conf : GAConfig) : list Event * error :=
  if (NPops conf =? 0)%N then
    ([], errors_New "NPops has to be strictly higher than 0")
  else if (PopSize conf =? 0)%N then
    ([], errors_New "PopSize has to be strictly higher than 0")
  else if (NGenerations conf =? 0)%N then
    ([], errors_New "NGenerations has to be strictly higher than 0")
  else if (HofSize conf =? 0)%N then
    ([], errors_New "HofSize has to be strictly higher than 0")
  else
    match conf_Model conf with
    | None => ([], errors_New "model has to be provided")
    | Some m =>
        match Validate m with
        | Some e => ([EvModelValidate], Some e)
        | None => let '(evs, r) := check_Migrator conf in (evs ++ [EvModelValidate], r)
        end
    end.

(** Third phase: the configuration stored in the [GA] at address [ga]. *)
Definition inject_GA (ga : loc) (conf : GAConfig) : GAConfig :=
  match as_ModSimulatedAnnealing (conf_Model conf) with
  | Some msa => set_Model (Some (ModelMSA (set_GA (Some ga) msa))) conf
  | None => conf
  end.

(** The three phases in sequence: the result of [NewGA] and the next state. *)
Definition NewGA_summary (conf : GAConfig) (w : World)
  : (option loc * error) * World :=
  let '(conf1, w1) := default_RNG conf w in
  let '(evs, err) := check conf1 in
  let w2 := set_trace (evs ++ trace w1) w1 in
  match err with
  | Some e => ((None, Some e), w2)
  | None =>
      let ga := fresh (dom (gas w2)) in
      ((Some ga, None),
       set_gas (<[ga := {| ga_GAConfig := inject_GA ga conf1;
                           ga_fields := zeroGAFields |}]> (gas w2)) w2)
  end.

End Engine.

(** ** Test doubles *)

(** A collaborator whose [Validate] returns the error it was built with. *)
Record Stub : Type := { stub_err : error }.

#[export] Instance Stub_Validator : Validator Stub := stub_err.

(** A [ModSimulatedAnnealing] whose remaining fields are a [Stub]. *)
#[export] Instance StubMSA_Validator : Validator (@ModSimulatedAnnealing Stub) :=
  fun msa => stub_err (msa_fields msa).

(** A collaborator that validates, and one that fails with a given text. *)
Definition good : Stub := {| stub_err := None |}.
Definition bad (text : string) : Stub := {| stub_err := errors_New text |}.

(** A state with no objects, the clock reading [1700000000000000000]. *)
Definition world0 : @World Stub Stub Stub Stub unit :=
  {| unixNano := 1700000000000000000; rands := ∅; gas := ∅; vars := ∅; trace := [] |}.

(** The default configuration with a model whose [Validate] fails, and
    [NPops] zeroed. *)
Definition conf_no_pops_bad_model : @GAConfig Stub Stub Stub Stub :=
  {| NPops := 0; PopSize := 30; NGenerations := 50; HofSize := 1;
     conf_Model := Some (ModelOther (bad "invalid model"));
     ParallelInit := false; ParallelEval := false;
     conf_Migrator := None; MigFrequency := 0; conf_Speciator := None;
     Logger := None; Callback := None; EarlyStop := None; RNG := None;
     GenomeJSONUnmarshaler := None |}.

(** A configuration whose [Model] and [Migrator] validate and whose
    [Speciator] does not. *)
Definition conf_bad_speciator : @GAConfig Stub Stub Stub Stub :=
  {| NPops := 2; PopSize := 30; NGenerations := 50; HofSize := 1;
     conf_Model := Some (ModelOther good);
     ParallelInit := false; ParallelEval := false;
     conf_Migrator := Some good; MigFrequency := 10;
     conf_Speciator := Some (bad "invalid speciator");
     Logger := None; Callback := None; EarlyStop := None; RNG := None;
     GenomeJSONUnmarshaler := None |}.

(** The default configuration with a [ModSimulatedAnnealing] for [Model]. *)
Definition conf_annealing : @GAConfig Stub Stub Stub Stub :=
  set_Model (Some (ModelMSA {| msa_fields := good; msa_GA := None |}))
    (NewDefaultGAConfig good).

(** A state in which the variable at address [1] holds [conf_annealing]. *)
Definition world1 : @World Stub Stub Stub Stub unit :=
  {| unixNano := 1700000000000000000; rands := ∅; gas := ∅;
     vars := {[ 1%positive := conf_annealing ]}; trace := [] |}.

(** *** Further configurations *)

(** A configuration whose [Migrator] validates but comes with a zero
    [MigFrequency], and whose [Speciator] does not validate. *)
Definition conf_zero_MigFrequency : @GAConfig Stub Stub Stub Stub :=
  {| NPops := 2; PopSize := 30; NGenerations := 50; HofSize := 1;
     conf_Model := Some (ModelOther good);
     ParallelInit := false; ParallelEval := false;
     conf_Migrator := Some good; MigFrequency := 0;
     conf_Speciator := Some (bad "invalid speciator");
     Logger := None; Callback := None; EarlyStop := None; RNG := None;
     GenomeJSONUnmarshaler := None |}.

(** A valid configuration with a [Migrator], a [Speciator] and an [RNG] of
    the caller's, at address [9]. *)
Definition conf_own_RNG : @GAConfig Stub Stub Stub Stub :=
  {| NPops := 2; PopSize := 30; NGenerations := 50; HofSize := 1;
     conf_Model := Some (ModelOther good);
     ParallelInit := false; ParallelEval := false;
     conf_Migrator := Some good; MigFrequency := 10;
     conf_Speciator := Some good;
     Logger := None; Callback := None; EarlyStop := None; RNG := Some 9%positive;
     GenomeJSONUnmarshaler := None |}.

(** The default configuration with every optional field that [NewGA] does
    not check set: parallel flags, logger, callbacks, [RNG], unmarshaler. *)
Definition conf_with_options : @GAConfig Stub Stub Stub Stub :=
  {| NPops := 1; PopSize := 30; NGenerations := 50; HofSize := 1;
     conf_Model := Some (ModelOther good);
     ParallelInit := true; ParallelEval := true;
     conf_Migrator := None; MigFrequency := 0; conf_Speciator := None;
     Logger := Some 3%positive; Callback := Some 4%positive;
     EarlyStop := Some 5%positive; RNG := Some 9%positive;
     GenomeJSONUnmarshaler := Some 6%positive |}.

(** A state in which a [Rand] seeded with 42 lives at address [9]. *)
Definition world9 : @World Stub Stub Stub Stub unit :=
  {| unixNano := 1700000000000000000; rands := {[ 9%positive := seeded 42 ]};
     gas := ∅; vars := ∅; trace := [] |}.

(** * Properties *)

Section EngineProperties.

Context {MSAFields OtherModel Migrator Speciator GAFields : Type}.
Context (zeroGAFields : GAFields).
Context `{!Validator (@ModSimulatedAnnealing MSAFields), !Validator OtherModel,
          !Validator Migrator, !Validator Speciator}.

Implicit Types (conf : @GAConfig MSAFields OtherModel Migrator Speciator).
Implicit Types (w : @World MSAFields OtherModel Migrator Speciator GAFields).

(** [NewGA] computes its summary; in particular it never panics. *)
Lemma NewGA_summary_eq conf w :
  NewGA zeroGAFields conf w = Some (NewGA_summary zeroGAFields conf w).
Proof.
  unfold NewGA, run, NewGA_body, NewGA_summary, default_RNG.
  unfold mbind, Stmt_bind, mret, Stmt_ret, when, return_, call_Validate,
      time_Now_UnixNano, rand_New, new_GA, store_Model.
  destruct (RNG conf) as [r|] eqn:Hrng; cbn [is_nil];
  (match goal with |- context [check ?c] => generalize c end);
  (match goal with |- context [set_trace _ ?c] => generalize c end).
  all: clear; intros w c; destruct w as [now rs gs vs tr];
    unfold check, check_Migrator, check_Speciator, inject_GA.
  all: destruct (NPops c =? 0)%N; [reflexivity|].
  all: destruct (PopSize c =? 0)%N; [reflexivity|].
  all: destruct (NGenerations c =? 0)%N; [reflexivity|].
  all: destruct (HofSize c =? 0)%N; [reflexivity|].
  all: destruct (conf_Model c) as [m|] eqn:Hm; [|reflexivity]; cbn [is_nil negb].
  all: destruct (Validate m) as [e|] eqn:He; [reflexivity|]; cbn [is_nil negb].
  all: destruct (conf_Migrator c) as [g|] eqn:Hg; cbn [is_nil negb].
  all: try (destruct (Validate g) as [e|]; [reflexivity|]; cbn [is_nil negb];
            destruct (MigFrequency c =? 0)%N; [reflexivity|]).
  all: destruct (conf_Speciator c) as [s|] eqn:Hs; cbn [is_nil negb].
  all: try (destruct (Validate s) as [e|]; [reflexivity|]; cbn [is_nil negb]).
  all: unfold mret, Stmt_ret; destruct m as [msa|o];
    cbn [as_ModSimulatedAnnealing app trace set_trace gas set_gas unixNano rands vars].
  all: try rewrite lookup_insert_eq.
  all: cbn [app trace set_trace gas set_gas unixNano rands vars ga_GAConfig ga_fields].
  all: try rewrite insert_insert_eq.
  all: reflexivity.
Qed.

(** *** The phases, one at a time *)

Lemma default_RNG_world conf w :
  gas (default_RNG conf w).2 = gas w ∧ vars (default_RNG conf w).2 = vars w ∧
  trace (default_RNG conf w).2 = trace w ∧ unixNano (default_RNG conf w).2 = unixNano w.
Proof. unfold default_RNG. by destruct (RNG conf). Qed.

Lemma default_RNG_conf conf w :
  ∃ r, (default_RNG conf w).1 = set_RNG r conf ∧
       (∀ r0, RNG conf = Some r0 → r = Some r0).
Proof.
  unfold default_RNG. destruct (RNG conf) as [r0|] eqn:E; simpl.
  - exists (Some r0). split; [|done]. destruct conf; simpl in *; by subst.
  - eexists. split; [done|]. intros; discriminate.
Qed.

Lemma check_set_RNG r conf : check (set_RNG r conf) = check conf.
Proof. reflexivity. Qed.

Lemma check_default_RNG conf w : check (default_RNG conf w).1 = check conf.
Proof. unfold default_RNG. by destruct (RNG conf). Qed.

Lemma check_Speciator_ok conf :
  (check_Speciator conf).2 = None ↔ speciator_ok conf.
Proof.
  unfold check_Speciator, speciator_ok.
  destruct (conf_Speciator conf) as [s|]; simpl.
  - split; [intros E ? [= <-]; exact E | eauto].
  - split; [intros _ s; discriminate | done].
Qed.

Lemma check_Migrator_ok conf :
  (check_Migrator conf).2 = None ↔ migrator_ok conf ∧ speciator_ok conf.
Proof.
  rewrite <- check_Speciator_ok. unfold check_Migrator, migrator_ok.
  destruct (conf_Migrator conf) as [g|].
  2: { split; [intros E; split; [intros g; discriminate | exact E] | by intros [_ E]]. }
  destruct (Validate g) as [e|] eqn:Eg; simpl.
  { split; [done|]. intros [Hg _]. destruct (Hg g eq_refl) as [? _]; congruence. }
  destruct (N.eqb_spec (MigFrequency conf) 0) as [E0|E0]; simpl.
  { split; [done|]. intros [Hg _]. by destruct (Hg g eq_refl). }
  destruct (check_Speciator conf) as [evs r]; simpl.
  split; [intros ->; split; [intros ? [= <-]|]; done | by intros [_ ?]].
Qed.

(** The checks pass exactly on the valid configurations. *)
Lemma check_ok conf : (check conf).2 = None ↔ valid conf.
Proof.
  unfold valid. rewrite <- check_Migrator_ok. unfold check, required_ok.
  destruct (N.eqb_spec (NPops conf) 0); [split; [discriminate|tauto]|].
  destruct (N.eqb_spec (PopSize conf) 0); [split; [discriminate|tauto]|].
  destruct (N.eqb_spec (NGenerations conf) 0); [split; [discriminate|tauto]|].
  destruct (N.eqb_spec (HofSize conf) 0); [split; [discriminate|tauto]|].
  destruct (conf_Model conf) as [m|].
  2: { split; [discriminate|]. intros ((_ & _ & _ & _ & m & Hm & _) & _). discriminate. }
  destruct (Validate m) as [e|] eqn:Em.
  { split; [discriminate|]. intros ((_ & _ & _ & _ & m' & [= <-] & Hv) & _). congruence. }
  destruct (check_Migrator conf) as [evs r]; simpl.
  split; [intros ->; repeat split; eauto | by intros [_ ?]].
Qed.

(** On a failed check [NewGA] returns the error found and no [GA]; it has
    allocated no [GA] object. *)
Lemma NewGA_invalid conf w e :
  (check conf).2 = Some e →
  NewGA zeroGAFields conf w =
    Some ((None, Some e),
          set_trace ((check conf).1 ++ trace w) (default_RNG conf w).2).
Proof.
  intros E. rewrite NewGA_summary_eq. unfold NewGA_summary.
  pose proof (check_default_RNG conf w) as Hc.
  pose proof (default_RNG_world conf w) as (_ & _ & Ht & _).
  destruct (default_RNG conf w) as [conf1 w1]; simpl in *.
  rewrite Hc. destruct (check conf) as [evs r]; simpl in *. subst r.
  by rewrite Ht.
Qed.

(** On a valid configuration [NewGA] returns a new [GA], which holds the
    configuration with its [RNG] defaulted and its [Model] pointed at the
    [GA]. *)
Lemma NewGA_valid conf w :
  valid conf →
  let l := fresh (dom (gas w)) in
  NewGA zeroGAFields conf w =
    Some ((Some l, None),
          set_gas (<[l := {| ga_GAConfig := inject_GA l (default_RNG conf w).1;
                             ga_fields := zeroGAFields |}]> (gas w))
            (set_trace ((check conf).1 ++ trace w) (default_RNG conf w).2)).
Proof.
  intros E%check_ok. rewrite NewGA_summary_eq. unfold NewGA_summary.
  pose proof (check_default_RNG conf w) as Hc.
  pose proof (default_RNG_world conf w) as (Hg & _ & Ht & _).
  destruct (default_RNG conf w) as [conf1 w1]; simpl in *.
  rewrite Hc. destruct (check conf) as [evs r]; simpl in *. subst r.
  by rewrite Ht, Hg.
Qed.

(** *** Rejection of invalid configurations *)

(** Each of the faults the claim lists makes the checks fail. *)
Lemma check_faulty conf :
  NPops conf = 0%N ∨ PopSize conf = 0%N ∨ NGenerations conf = 0%N ∨
  HofSize conf = 0%N ∨ conf_Model conf = None ∨
  (conf_Migrator conf ≠ None ∧ MigFrequency conf = 0%N) →
  ∃ e, (check conf).2 = Some e.
Proof.
  intros Hbad. destruct ((check conf).2) as [e|] eqn:E; [eauto|exfalso].
  apply check_ok in E as ((Hn & Hp & Hg & Hh & m & Hm & _) & Hmig & _).
  destruct Hbad as [?|[?|[?|[?|[?|[Hpres Hfreq]]]]]]; try congruence.
  destruct (conf_Migrator conf) as [g|] eqn:Eg; [|done].
  by destruct (Hmig g Eg).
Qed.

(** Where an error of the checks comes from: [NewGA] built it, or the
    [Validate] of a collaborator present in the configuration returned it. *)
Lemma check_error_origin conf e :
  (check conf).2 = Some e →
  Error e ∈ NewGA_messages ∨
  (∃ m, conf_Model conf = Some m ∧ Validate m = Some e) ∨
  (∃ g, conf_Migrator conf = Some g ∧ Validate g = Some e) ∨
  (∃ s, conf_Speciator conf = Some s ∧ Validate s = Some e).
Proof.
  unfold check, check_Migrator, check_Speciator, NewGA_messages, errors_New.
  repeat case_match; simpl; intros; simplify_eq; simpl;
    first [ left; set_solver | right; eauto 6 ].
Qed.

(** C1. For every [GAConfig] with [NPops = 0], or [PopSize = 0], or
    [NGenerations = 0], or [HofSize = 0], or no [Model], or a [Migrator]
    together with [MigFrequency = 0], [NewGA] returns a nil [GA] and a
    non-nil error; the error is one [NewGA] built, with one of its six
    texts, or the one a [Validate] of the configuration returned. *)
Theorem NewGA_rejects_faulty conf w :
  NPops conf = 0%N ∨ PopSize conf = 0%N ∨ NGenerations conf = 0%N ∨
  HofSize conf = 0%N ∨ conf_Model conf = None ∨
  (conf_Migrator conf ≠ None ∧ MigFrequency conf = 0%N) →
  ∃ e w', NewGA zeroGAFields conf w = Some ((None, Some e), w') ∧
          (Error e ∈ NewGA_messages ∨
           (∃ m, conf_Model conf = Some m ∧ Validate m = Some e) ∨
           (∃ g, conf_Migrator conf = Some g ∧ Validate g = Some e) ∨
           (∃ s, conf_Speciator conf = Some s ∧ Validate s = Some e)).
Proof.
  intros [e He]%check_faulty. exists e. eexists. split.
  - by apply NewGA_invalid.
  - by apply check_error_origin.
Qed.

(** C2. [NewGA] always returns (it never panics), and whenever the error it
    returns is non-nil the [GA] pointer is nil; no [GA] object has been
    created then.  With a nil error the pointer is non-nil. *)
Theorem NewGA_fails_closed conf w :
  ∃ p err w', NewGA zeroGAFields conf w = Some ((p, err), w') ∧
              (err ≠ None → p = None ∧ gas w' = gas w) ∧
              (err = None → is_Some p).
Proof.
  destruct ((check conf).2) as [e|] eqn:E.
  - eexists _, _, _. split; [by apply NewGA_invalid|].
    split; [intros _; split; [done|] | done].
    simpl. apply default_RNG_world.
  - apply check_ok in E. eexists _, _, _. split; [by apply NewGA_valid|].
    split; [done | eauto].
Qed.

(** *** Errors of the collaborators *)

(** C6, as amended.  Let the four sizes be non-zero and a [Model] be
    present.  If its [Validate] returns a non-nil error, [NewGA] returns
    exactly that error; otherwise, if a [Migrator] is present whose
    [Validate] returns a non-nil error, [NewGA] returns exactly that error;
    otherwise, if the [Migrator], when present, comes with a non-zero
    [MigFrequency], and a [Speciator] is present whose [Validate] returns
    a non-nil error, [NewGA] returns exactly that error.  The [Validate]
    calls are made by [NewGA] itself, each once, in the order [Model],
    [Migrator], [Speciator], up to the one that fails. *)
Theorem NewGA_returns_Validate_error conf w m e :
  NPops conf ≠ 0%N → PopSize conf ≠ 0%N → NGenerations conf ≠ 0%N →
  HofSize conf ≠ 0%N → conf_Model conf = Some m →
  (Validate m = Some e →
   ∃ w', NewGA zeroGAFields conf w = Some ((None, Some e), w') ∧
         trace w' = EvModelValidate :: trace w) ∧
  (Validate m = None →
   ∀ g, conf_Migrator conf = Some g → Validate g = Some e →
   ∃ w', NewGA zeroGAFields conf w = Some ((None, Some e), w') ∧
         trace w' = EvMigratorValidate :: EvModelValidate :: trace w) ∧
  (Validate m = None → migrator_ok conf →
   ∀ s, conf_Speciator conf = Some s → Validate s = Some e →
   ∃ w', NewGA zeroGAFields conf w = Some ((None, Some e), w') ∧
         trace w' =
           EvSpeciatorValidate :: Migrator_calls conf ++ EvModelValidate :: trace w).
Proof.
  intros Hn%N.eqb_neq Hp%N.eqb_neq Hg%N.eqb_neq Hh%N.eqb_neq Hm.
  assert (∀ evs, (check conf) = (evs, Some e) →
    ∃ w', NewGA zeroGAFields conf w = Some ((None, Some e), w') ∧
          trace w' = evs ++ trace w) as Hrun.
  { intros evs E. eexists. split; [apply NewGA_invalid; by rewrite E|].
    by rewrite E. }
  unfold check in Hrun. rewrite Hn, Hp, Hg, Hh, Hm in Hrun.
  split; [|split].
  - intros Em. rewrite Em in Hrun. by apply (Hrun [EvModelValidate]).
  - intros Em g Eg Ev. rewrite Em in Hrun. unfold check_Migrator in Hrun.
    rewrite Eg, Ev in Hrun. by apply (Hrun [EvMigratorValidate; EvModelValidate]).
  - intros Em Hmig s Es Ev. rewrite Em in Hrun.
    unfold check_Migrator, check_Speciator, Migrator_calls in *.
    rewrite Es, Ev in Hrun.
    destruct (conf_Migrator conf) as [g|] eqn:Eg; simpl.
    + destruct (Hmig g Eg) as [Evg Hf%N.eqb_neq]. rewrite Evg, Hf in Hrun.
      by apply (Hrun [EvSpeciatorValidate; EvMigratorValidate; EvModelValidate]).
    + by apply (Hrun [EvSpeciatorValidate; EvModelValidate]).
Qed.

(** *** Successful construction *)

Lemma inject_GA_fields l conf :
  ∃ m, inject_GA l conf = set_Model m conf ∧
       (as_ModSimulatedAnnealing (conf_Model conf) = None → m = conf_Model conf).
Proof.
  unfold inject_GA. destruct (as_ModSimulatedAnnealing (conf_Model conf)).
  - eexists. split; [done|]. intros; discriminate.
  - exists (conf_Model conf). split; [|done]. by destruct conf.
Qed.

Lemma RNG_inject_GA l conf : RNG (inject_GA l conf) = RNG conf.
Proof. unfold inject_GA. by destruct (as_ModSimulatedAnnealing _). Qed.

(** C7. With no [Migrator], [MigFrequency = 0], the required fields in
    order and the [Speciator], if any, validating, [NewGA] returns a
    non-nil [GA] and a nil error. *)
Theorem NewGA_without_Migrator conf w :
  conf_Migrator conf = None → MigFrequency conf = 0%N →
  required_ok conf → speciator_ok conf →
  ∃ l w', NewGA zeroGAFields conf w = Some ((Some l, None), w').
Proof.
  intros Hmig _ Hreq Hspec. eexists _, _. apply NewGA_valid.
  split; [done|split; [|done]]. intros g. by rewrite Hmig.
Qed.

(** C8. On a valid configuration with a nil [RNG], [NewGA] succeeds, and
    the [GA] it returns holds a non-nil [RNG]: a [Rand] object created by
    the call, seeded with the clock reading. *)
Theorem NewGA_default_RNG conf w :
  RNG conf = None → valid conf →
  ∃ l g r w', NewGA zeroGAFields conf w = Some ((Some l, None), w') ∧
              gas w' !! l = Some g ∧
              RNG (ga_GAConfig g) = Some r ∧
              rands w !! r = None ∧
              rands w' !! r = Some (seeded (unixNano w)).
Proof.
  intros Hrng Hv. eexists _, _, (fresh (dom (rands w))), _.
  split; [by apply NewGA_valid|]. simpl.
  split; [apply lookup_insert_eq|]. simpl. rewrite RNG_inject_GA.
  unfold default_RNG. rewrite Hrng. simpl.
  split; [done|]. split; [|apply lookup_insert_eq].
  apply not_elem_of_dom, is_fresh.
Qed.

(** C9. On a valid configuration whose [Model] is a
    [ModSimulatedAnnealing], the [GA] that [NewGA] returns holds for
    [Model] that [ModSimulatedAnnealing] with its [GA] field pointing to
    the returned [GA]. *)
Theorem NewGA_points_annealing_to_GA conf w msa :
  valid conf → conf_Model conf = Some (ModelMSA msa) →
  ∃ l g w', NewGA zeroGAFields conf w = Some ((Some l, None), w') ∧
            gas w !! l = None ∧
            gas w' !! l = Some g ∧
            conf_Model (ga_GAConfig g) =
              Some (ModelMSA {| msa_fields := msa_fields msa; msa_GA := Some l |}).
Proof.
  intros Hv Hm. eexists _, _, _. split; [by apply NewGA_valid|]. simpl.
  split; [apply not_elem_of_dom, is_fresh|].
  split; [apply lookup_insert_eq|]. simpl.
  unfold inject_GA, default_RNG.
  destruct (RNG conf); simpl; by rewrite Hm.
Qed.

(** *** The caller's configuration *)

(** C10. A call [c.NewGA()] returns and leaves every [GAConfig] variable,
    [c] included, with the value it had, and every [GA] and [Rand] object
    that existed as it was; what differs from the caller's value, in the
    [RNG] when that was nil and in the [Model] when that is a
    [ModSimulatedAnnealing], is the configuration held by the new [GA]. *)
Theorem NewGA_leaves_caller_config c conf w :
  vars w !! c = Some conf →
  ∃ p err w',
    call_NewGA zeroGAFields c w = Some ((p, err), w') ∧
    vars w' = vars w ∧ vars w' !! c = Some conf ∧
    (∀ l g, gas w !! l = Some g → gas w' !! l = Some g) ∧
    (∀ l r, rands w !! l = Some r → rands w' !! l = Some r) ∧
    (∀ l, p = Some l →
       gas w !! l = None ∧
       ∃ g r m, gas w' !! l = Some g ∧
                ga_GAConfig g = set_Model m (set_RNG r conf) ∧
                (∀ r0, RNG conf = Some r0 → r = Some r0) ∧
                (as_ModSimulatedAnnealing (conf_Model conf) = None →
                 m = conf_Model conf)).
Proof.
  intros Hc. unfold call_NewGA. rewrite Hc.
  assert (∀ l r, rands w !! l = Some r → rands (default_RNG conf w).2 !! l = Some r)
    as Hrands.
  { intros l r Hl. unfold default_RNG. destruct (RNG conf); [done|]. simpl.
    rewrite lookup_insert_ne; [done|]. intros <-.
    by rewrite (proj1 (not_elem_of_dom _ _) (is_fresh (dom (rands w)))) in Hl. }
  pose proof (default_RNG_world conf w) as (Hg & Hv & _ & _).
  destruct ((check conf).2) as [e|] eqn:E.
  - eexists _, _, _. split; [by apply NewGA_invalid|]. simpl.
    rewrite Hg, Hv. do 2 (split; [done|]). split; [done|]. split; [done|]. done.
  - apply check_ok in E. eexists _, _, _. split; [by apply NewGA_valid|]. simpl.
    rewrite Hv. do 2 (split; [done|]).
    assert (gas w !! fresh (dom (gas w)) = None) as Hfresh
      by apply not_elem_of_dom, is_fresh.
    split; [|split; [done|]].
    + intros l g Hl. rewrite lookup_insert_ne; [done|]. intros <-. congruence.
    + intros l [= <-]. split; [done|].
      destruct (default_RNG_conf conf w) as (r & -> & Hr).
      destruct (inject_GA_fields (fresh (dom (gas w))) (set_RNG r conf)) as (m & Em & Hm).
      exists {| ga_GAConfig := inject_GA (fresh (dom (gas w))) (set_RNG r conf);
                ga_fields := zeroGAFields |}, r, m.
      split; [apply lookup_insert_eq|]. simpl. done.
Qed.

End EngineProperties.

Section ConstructionInDetail.

Context {MSAFields OtherModel Migrator Speciator GAFields : Type}.
Context (zeroGAFields : GAFields).
Context `{!Validator (@ModSimulatedAnnealing MSAFields), !Validator OtherModel,
          !Validator Migrator, !Validator Speciator}.

Implicit Types (conf : @GAConfig MSAFields OtherModel Migrator Speciator).
Implicit Types (w : @World MSAFields OtherModel Migrator Speciator GAFields).

(** *** Which configurations are accepted *)

(** X1. [NewGA] returns a nil error exactly on the valid configurations,
    and a non-nil [GA] exactly then. *)
Theorem NewGA_accepts_exactly_valid conf w :
  ∃ p err w', NewGA zeroGAFields conf w = Some ((p, err), w') ∧
              (err = None ↔ valid conf) ∧ (is_Some p ↔ valid conf).
Proof.
  destruct ((check conf).2) as [e|] eqn:E.
  - assert (¬ valid conf) as Hn by (rewrite <- check_ok, E; discriminate).
    eexists _, _, _. split; [by apply NewGA_invalid|].
    split; (split; [|done]); [discriminate | by intros [? [=]]].
  - apply check_ok in E. eexists _, _, _. split; [by apply NewGA_valid|].
    split; (split; [done|intros _]); eauto.
Qed.

(** X2. The checks [NewGA] makes itself run in the order [NPops],
    [PopSize], [NGenerations], [HofSize], [Model]: the first of them to
    fail decides the error, whatever the later fields hold, and no
    [Validate] has been called by then. *)
Theorem NewGA_own_checks_in_order conf w :
  (NPops conf = 0%N →
   ∃ w', NewGA zeroGAFields conf w =
           Some ((None, errors_New "NPops has to be strictly higher than 0"), w') ∧
         trace w' = trace w) ∧
  (NPops conf ≠ 0%N → PopSize conf = 0%N →
   ∃ w', NewGA zeroGAFields conf w =
           Some ((None, errors_New "PopSize has to be strictly higher than 0"), w') ∧
         trace w' = trace w) ∧
  (NPops conf ≠ 0%N → PopSize conf ≠ 0%N → NGenerations conf = 0%N →
   ∃ w', NewGA zeroGAFields conf w =
           Some ((None, errors_New "NGenerations has to be strictly higher than 0"), w') ∧
         trace w' = trace w) ∧
  (NPops conf ≠ 0%N → PopSize conf ≠ 0%N → NGenerations conf ≠ 0%N →
   HofSize conf = 0%N →
   ∃ w', NewGA zeroGAFields conf w =
           Some ((None, errors_New "HofSize has to be strictly higher than 0"), w') ∧
         trace w' = trace w) ∧
  (NPops conf ≠ 0%N → PopSize conf ≠ 0%N → NGenerations conf ≠ 0%N →
   HofSize conf ≠ 0%N → conf_Model conf = None →
   ∃ w', NewGA zeroGAFields conf w =
           Some ((None, errors_New "model has to be provided"), w') ∧
         trace w' = trace w).
Proof.
  assert (∀ e, check conf = ([], Some e) →
    ∃ w', NewGA zeroGAFields conf w = Some ((None, Some e), w') ∧ trace w' = trace w)
    as Hrun.
  { intros e E. eexists. split; [apply NewGA_invalid; by rewrite E|].
    by rewrite E. }
  unfold check in Hrun.
  repeat split; intros;
    repeat match goal with
           | H : _ = 0%N |- _ => apply N.eqb_eq in H; rewrite H in Hrun
           | H : _ ≠ 0%N |- _ => apply N.eqb_neq in H; rewrite H in Hrun
           | H : conf_Model conf = None |- _ => rewrite H in Hrun
           end;
    by apply Hrun.
Qed.

(** *** The origin of errors *)

(** X3. Whatever error [NewGA] returns, it either built it itself, with
    one of its six texts, or got it from the [Validate] of the [Model], the
    [Migrator] or the [Speciator] of the configuration. *)
Theorem NewGA_error_origin conf w :
  ∃ p err w', NewGA zeroGAFields conf w = Some ((p, err), w') ∧
    ∀ e, err = Some e →
         Error e ∈ NewGA_messages ∨
         (∃ m, conf_Model conf = Some m ∧ Validate m = Some e) ∨
         (∃ g, conf_Migrator conf = Some g ∧ Validate g = Some e) ∨
         (∃ s, conf_Speciator conf = Some s ∧ Validate s = Some e).
Proof.
  destruct ((check conf).2) as [e|] eqn:E.
  - eexists _, _, _. split; [by apply NewGA_invalid|].
    intros e' [= <-]. by apply check_error_origin.
  - apply check_ok in E. eexists _, _, _. split; [by apply NewGA_valid|]. done.
Qed.

(** *** The calls to the collaborators *)

(** X4. A [Migrator] that validates but comes with [MigFrequency = 0] is
    refused with the error about [MigFrequency], after the [Model] and the
    [Migrator] have been validated; the [Speciator] is not consulted. *)
Theorem NewGA_zero_MigFrequency conf w g :
  required_ok conf → conf_Migrator conf = Some g → Validate g = None →
  MigFrequency conf = 0%N →
  ∃ w', NewGA zeroGAFields conf w =
          Some ((None, errors_New "MigFrequency should be higher than 0"), w') ∧
        trace w' = EvMigratorValidate :: EvModelValidate :: trace w.
Proof.
  intros (Hn%N.eqb_neq & Hp%N.eqb_neq & Hg%N.eqb_neq & Hh%N.eqb_neq & m & Hm & Hv)
    Emig Ev Hf%N.eqb_eq.
  assert (check conf = ([EvMigratorValidate; EvModelValidate],
                        errors_New "MigFrequency should be higher than 0")) as E.
  { unfold check, check_Migrator. by rewrite Hn, Hp, Hg, Hh, Hm, Hv, Emig, Ev, Hf. }
  eexists. split; [apply NewGA_invalid; by rewrite E|].
  by rewrite E.
Qed.

Lemma check_valid_calls conf :
  valid conf →
  check conf = (Speciator_calls conf ++ Migrator_calls conf ++ [EvModelValidate], None).
Proof.
  intros ((Hn%N.eqb_neq & Hp%N.eqb_neq & Hg%N.eqb_neq & Hh%N.eqb_neq & m & Hm & Hv)
          & Hmig & Hspec).
  unfold check, check_Migrator, check_Speciator, Speciator_calls, Migrator_calls.
  rewrite Hn, Hp, Hg, Hh, Hm, Hv.
  destruct (conf_Migrator conf) as [g|] eqn:Eg; simpl.
  - destruct (Hmig g Eg) as [-> ->%N.eqb_neq].
    destruct (conf_Speciator conf) as [s|] eqn:Es; simpl; [|done].
    by rewrite (Hspec s Es).
  - destruct (conf_Speciator conf) as [s|] eqn:Es; simpl; [|done].
    by rewrite (Hspec s Es).
Qed.

(** X5. On a valid configuration [NewGA] calls [Validate] once on the
    [Model], then once on the [Migrator] if there is one, then once on the
    [Speciator] if there is one, and makes no other interface call. *)
Theorem NewGA_validates_each_once conf w :
  valid conf →
  ∃ l w', NewGA zeroGAFields conf w = Some ((Some l, None), w') ∧
          trace w' =
            Speciator_calls conf ++ Migrator_calls conf ++ EvModelValidate :: trace w.
Proof.
  intros Hv. eexists _, _. split; [by apply NewGA_valid|]. simpl.
  rewrite (check_valid_calls conf Hv). simpl.
  by rewrite <- !app_assoc.
Qed.

(** *** The randomness source *)

(** X6. With a nil [RNG], [NewGA] creates one new [Rand] object, seeded with
    the clock reading, before it checks anything: the object is there after
    the call whether construction succeeded or failed. *)
Theorem NewGA_creates_Rand_before_checks conf w :
  RNG conf = None →
  ∃ p err w' r, NewGA zeroGAFields conf w = Some ((p, err), w') ∧
                rands w !! r = None ∧
                rands w' = <[r := seeded (unixNano w)]> (rands w).
Proof.
  intros Hrng.
  assert (rands (default_RNG conf w).2 =
            <[fresh (dom (rands w)) := seeded (unixNano w)]> (rands w)) as Hr
    by (unfold default_RNG; by rewrite Hrng).
  assert (rands w !! fresh (dom (rands w)) = None) as Hfresh
    by apply not_elem_of_dom, is_fresh.
  destruct ((check conf).2) as [e|] eqn:E.
  - eexists _, _, _, _. split; [by apply NewGA_invalid|]. by split.
  - apply check_ok in E. eexists _, _, _, _. split; [by apply NewGA_valid|]. by split.
Qed.

(** X7. An [RNG] the caller supplies is kept: [NewGA] creates no [Rand]
    object and changes none, and the [GA] it returns holds the caller's
    pointer, which is not looked at (it may dangle). *)
Theorem NewGA_keeps_supplied_RNG conf w r :
  RNG conf = Some r →
  ∃ p err w', NewGA zeroGAFields conf w = Some ((p, err), w') ∧
              rands w' = rands w ∧
              ∀ l, p = Some l →
                   ∃ g, gas w' !! l = Some g ∧ RNG (ga_GAConfig g) = Some r.
Proof.
  intros Hrng.
  assert (default_RNG conf w = (conf, w)) as Hd by (unfold default_RNG; by rewrite Hrng).
  destruct ((check conf).2) as [e|] eqn:E.
  - eexists _, _, _. split; [by apply NewGA_invalid|]. rewrite Hd. by split.
  - apply check_ok in E. eexists _, _, _. split; [by apply NewGA_valid|].
    rewrite Hd. simpl. split; [done|]. intros l [= <-].
    eexists. split; [apply lookup_insert_eq|]. simpl. by rewrite RNG_inject_GA.
Qed.

(** X8. For a valid configuration with an [RNG] of its own and a [Model]
    that is no [ModSimulatedAnnealing], the new [GA] holds the caller's
    configuration as it is, and zero values in its other fields. *)
Theorem NewGA_stores_config_verbatim conf w r :
  valid conf → RNG conf = Some r →
  as_ModSimulatedAnnealing (conf_Model conf) = None →
  ∃ l w', NewGA zeroGAFields conf w = Some ((Some l, None), w') ∧
          gas w !! l = None ∧
          gas w' !! l = Some {| ga_GAConfig := conf; ga_fields := zeroGAFields |}.
Proof.
  intros Hv Hrng Hm. eexists _, _. split; [by apply NewGA_valid|]. simpl.
  split; [apply not_elem_of_dom, is_fresh|].
  rewrite lookup_insert_eq. unfold default_RNG, inject_GA. rewrite Hrng. simpl.
  by rewrite Hm.
Qed.

(** *** The default configuration *)

(** X9. Construction from [NewDefaultGAConfig] can only fail with the error
    of its model's [Validate]; when the model validates it succeeds, and the
    new [GA] holds 1 population of 30 individuals, 50 generations, a hall of
    fame of 1, no [Migrator], no [Speciator] and a fresh [RNG]. *)
Theorem NewGA_NewDefaultGAConfig (modGenerational : OtherModel) w :
  ∃ w', NewGA zeroGAFields
          (NewDefaultGAConfig (Migrator := Migrator) (Speciator := Speciator)
             modGenerational) w =
          Some (match Validate modGenerational with
                | Some e => (None, Some e)
                | None => (Some (fresh (dom (gas w))), None)
                end, w') ∧
        (Validate modGenerational = None →
         ∃ g r, gas w' !! fresh (dom (gas w)) = Some g ∧
                NPops (ga_GAConfig g) = 1%N ∧ PopSize (ga_GAConfig g) = 30%N ∧
                NGenerations (ga_GAConfig g) = 50%N ∧ HofSize (ga_GAConfig g) = 1%N ∧
                conf_Model (ga_GAConfig g) = Some (ModelOther modGenerational) ∧
                conf_Migrator (ga_GAConfig g) = None ∧
                conf_Speciator (ga_GAConfig g) = None ∧
                RNG (ga_GAConfig g) = Some r ∧ rands w !! r = None).
Proof.
  rewrite NewGA_summary_eq. unfold NewGA_summary, default_RNG, check; simpl.
  change (Validate (ModelOther modGenerational)) with (Validate modGenerational).
  destruct (Validate modGenerational) as [e|]; simpl.
  - eexists. split; [done|]. discriminate.
  - eexists. split; [done|]. intros _. eexists _, _.
    split; [apply lookup_insert_eq|]. simpl. repeat split; try done.
    apply not_elem_of_dom, is_fresh.
Qed.

(** *** One construction after another *)

(** X10. Two constructions in a row give two different [GA] objects, the
    second leaving the first as it was; and when both configurations came
    with a nil [RNG], the two [GA]s hold different [Rand] objects. *)
Theorem NewGA_twice conf1 conf2 w :
  valid conf1 → valid conf2 →
  ∃ l1 g1 w1 l2 g2 w2,
    NewGA zeroGAFields conf1 w = Some ((Some l1, None), w1) ∧
    NewGA zeroGAFields conf2 w1 = Some ((Some l2, None), w2) ∧
    l1 ≠ l2 ∧
    gas w1 !! l1 = Some g1 ∧ gas w2 !! l1 = Some g1 ∧ gas w2 !! l2 = Some g2 ∧
    (RNG conf1 = None → RNG conf2 = None →
     is_Some (RNG (ga_GAConfig g1)) ∧ RNG (ga_GAConfig g1) ≠ RNG (ga_GAConfig g2)).
Proof.
  intros Hv1 Hv2.
  eexists _, _, _, _, _, _.
  split; [by apply NewGA_valid|]. split; [by apply NewGA_valid|]. simpl.
  set (l1 := fresh (dom (gas w))).
  set (h1 := <[l1 := _]> (gas w)).
  assert (h1 !! l1 = Some {| ga_GAConfig := inject_GA l1 (default_RNG conf1 w).1;
                             ga_fields := zeroGAFields |}) as Hl1
    by apply lookup_insert_eq.
  assert (fresh (dom h1) ≠ l1) as Hne.
  { intros E. pose proof (is_fresh (dom h1)) as Hf. rewrite E in Hf.
    apply Hf, elem_of_dom. eauto. }
  split; [done|]. split; [exact Hl1|].
  split; [by rewrite lookup_insert_ne|].
  split; [apply lookup_insert_eq|].
  intros Hr1 Hr2. simpl. rewrite !RNG_inject_GA.
  unfold default_RNG. rewrite Hr1, Hr2. simpl. split; [eauto|].
  intros [= E].
  pose proof (is_fresh (dom (<[fresh (dom (rands w)) := seeded (unixNano w)]> (rands w))))
    as Hf.
  apply Hf. rewrite <- E. apply elem_of_dom. rewrite lookup_insert_eq. eauto.
Qed.

(** *** The fields that are not checked *)

Lemma check_same_fields conf1 conf2 :
  NPops conf1 = NPops conf2 → PopSize conf1 = PopSize conf2 →
  NGenerations conf1 = NGenerations conf2 → HofSize conf1 = HofSize conf2 →
  conf_Model conf1 = conf_Model conf2 → conf_Migrator conf1 = conf_Migrator conf2 →
  MigFrequency conf1 = MigFrequency conf2 → conf_Speciator conf1 = conf_Speciator conf2 →
  check conf1 = check conf2.
Proof.
  intros En Ep Eg Eh Em Emi Ef Es. unfold check, check_Migrator, check_Speciator.
  by rewrite En, Ep, Eg, Eh, Em, Emi, Ef, Es.
Qed.

(** X11. The outcome of [NewGA] rests on the four sizes, the [Model], the
    [Migrator], [MigFrequency] and the [Speciator] alone: two configurations
    that agree on these get the same error, the same [GA] pointer and the
    same [Validate] calls, whatever their parallel flags, logger,
    callbacks, [RNG] and unmarshaler. *)
Theorem NewGA_ignores_unchecked_fields conf1 conf2 w :
  NPops conf1 = NPops conf2 → PopSize conf1 = PopSize conf2 →
  NGenerations conf1 = NGenerations conf2 → HofSize conf1 = HofSize conf2 →
  conf_Model conf1 = conf_Model conf2 → conf_Migrator conf1 = conf_Migrator conf2 →
  MigFrequency conf1 = MigFrequency conf2 → conf_Speciator conf1 = conf_Speciator conf2 →
  ∃ p err w1 w2,
    NewGA zeroGAFields conf1 w = Some ((p, err), w1) ∧
    NewGA zeroGAFields conf2 w = Some ((p, err), w2) ∧
    trace w1 = trace w2.
Proof.
  intros En Ep Eg Eh Em Emi Ef Es.
  pose proof (check_same_fields conf1 conf2 En Ep Eg Eh Em Emi Ef Es) as Ec.
  destruct ((check conf1).2) as [e|] eqn:E.
  - eexists _, _, _, _. split; [by apply NewGA_invalid|].
    split; [apply NewGA_invalid; by rewrite <- Ec|]. simpl. by rewrite Ec.
  - assert (valid conf1) as Hv1 by by apply check_ok.
    assert (valid conf2) as Hv2 by (apply check_ok; by rewrite <- Ec).
    eexists _, _, _, _. split; [by apply NewGA_valid|].
    split; [by apply NewGA_valid|]. simpl. by rewrite Ec.
Qed.

End ConstructionInDetail.

(** * The properties at work *)

(** [NewGA] rejects a configuration with [NPops = 0]. *)
Lemma NewGA_rejects_faulty_witness :
  NPops conf_no_pops_bad_model = 0%N ∧
  ∃ e w', NewGA tt conf_no_pops_bad_model world0 = Some ((None, Some e), w').
Proof.
  split; [reflexivity|].
  destruct (NewGA_rejects_faulty tt conf_no_pops_bad_model world0) as (e & w' & H & _).
  - left. reflexivity.
  - exists e, w'. exact H.
Defined.

(** C6, as stated, fails: a configuration whose [Model] does not validate
    and whose [NPops] is zero gets the [NPops] error from [NewGA], not the
    one [Validate] returned. *)
Lemma NewGA_Validate_error_preempted :
  (∃ m, conf_Model conf_no_pops_bad_model = Some m ∧
        Validate m = errors_New "invalid model") ∧
  (∃ w', NewGA tt conf_no_pops_bad_model world0 =
           Some ((None, errors_New "NPops has to be strictly higher than 0"), w')) ∧
  errors_New "NPops has to be strictly higher than 0" ≠ errors_New "invalid model".
Proof.
  split; [eexists; split; reflexivity|].
  split; [eexists; reflexivity | discriminate].
Qed.

(** The error of a [Speciator] is returned when [Model] and [Migrator]
    validate; the three [Validate] calls are on record. *)
Lemma NewGA_returns_Validate_error_witness :
  Validate (ModelOther good : @Model Stub Stub) = None ∧
  migrator_ok conf_bad_speciator ∧
  ∃ w', NewGA tt conf_bad_speciator world0 =
          Some ((None, errors_New "invalid speciator"), w') ∧
        trace w' = [EvSpeciatorValidate; EvMigratorValidate; EvModelValidate].
Proof.
  assert (migrator_ok conf_bad_speciator) as Hmig.
  { intros g [= <-]. split; [reflexivity | discriminate]. }
  split; [reflexivity|]. split; [exact Hmig|].
  destruct (NewGA_returns_Validate_error tt conf_bad_speciator world0
              (ModelOther good) {| Error := "invalid speciator" |})
    as (_ & _ & H); try discriminate; try reflexivity.
  apply (H eq_refl Hmig (bad "invalid speciator")); reflexivity.
Defined.

(** The default configuration has no [Migrator] and a zero [MigFrequency],
    and is accepted. *)
Lemma NewGA_without_Migrator_witness :
  conf_Migrator (NewDefaultGAConfig (MSAFields := Stub) (Migrator := Stub)
                   (Speciator := Stub) good) = None ∧
  MigFrequency (NewDefaultGAConfig (MSAFields := Stub) (Migrator := Stub)
                  (Speciator := Stub) good) = 0%N ∧
  ∃ l w', NewGA tt (NewDefaultGAConfig good) world0 = Some ((Some l, None), w').
Proof.
  split; [reflexivity|]. split; [reflexivity|].
  apply NewGA_without_Migrator; try reflexivity.
  - repeat split; try discriminate. eexists; split; reflexivity.
  - intros s [=].
Defined.

(** The default configuration is valid when its model validates. *)
Lemma valid_NewDefaultGAConfig :
  valid (NewDefaultGAConfig (MSAFields := Stub) (Migrator := Stub)
           (Speciator := Stub) good).
Proof.
  split; [|split]; [|intros g [=]|intros s [=]].
  repeat split; try discriminate. eexists; split; reflexivity.
Defined.

(** So is [conf_annealing]. *)
Lemma valid_conf_annealing : valid conf_annealing.
Proof.
  split; [|split]; [|intros g [=]|intros s [=]].
  repeat split; try discriminate. eexists; split; reflexivity.
Defined.

(** The default configuration has no [RNG]; its [GA] gets one seeded with
    the clock reading. *)
Lemma NewGA_default_RNG_witness :
  RNG (NewDefaultGAConfig (MSAFields := Stub) (Migrator := Stub)
         (Speciator := Stub) good) = None ∧
  ∃ l g r w', NewGA tt (NewDefaultGAConfig good) world0 = Some ((Some l, None), w') ∧
              gas w' !! l = Some g ∧ RNG (ga_GAConfig g) = Some r ∧
              rands world0 !! r = None ∧
              rands w' !! r = Some (seeded 1700000000000000000).
Proof.
  split; [reflexivity|].
  apply (NewGA_default_RNG tt (NewDefaultGAConfig good) world0 eq_refl
           valid_NewDefaultGAConfig).
Defined.

(** The [GA] built for [conf_annealing] is the one its [Model] points to. *)
Lemma NewGA_points_annealing_to_GA_witness :
  ∃ l g w', NewGA tt conf_annealing world0 = Some ((Some l, None), w') ∧
            gas world0 !! l = None ∧ gas w' !! l = Some g ∧
            conf_Model (ga_GAConfig g) =
              Some (ModelMSA {| msa_fields := good; msa_GA := Some l |}).
Proof.
  apply (NewGA_points_annealing_to_GA tt conf_annealing world0
           {| msa_fields := good; msa_GA := None |} valid_conf_annealing eq_refl).
Defined.

(** After [NewGA] on the variable at address [1], the variable still holds
    [conf_annealing], with a nil [RNG] and a nil [GA] in its [Model]. *)
Lemma NewGA_leaves_caller_config_witness :
  vars world1 !! 1%positive = Some conf_annealing ∧
  ∃ p err w', call_NewGA tt 1%positive world1 = Some ((p, err), w') ∧
              vars w' !! 1%positive = Some conf_annealing.
Proof.
  split; [reflexivity|].
  destruct (NewGA_leaves_caller_config tt 1%positive conf_annealing world1 eq_refl)
    as (p & err & w' & H & _ & Hc & _).
  exists p, err, w'. split; [exact H | exact Hc].
Defined.

(** The [Speciator] of [conf_zero_MigFrequency] does not validate, yet the
    error is the one about [MigFrequency], and only two calls are on
    record. *)
Lemma NewGA_zero_MigFrequency_witness :
  required_ok conf_zero_MigFrequency ∧
  ∃ w', NewGA tt conf_zero_MigFrequency world0 =
          Some ((None, errors_New "MigFrequency should be higher than 0"), w') ∧
        trace w' = [EvMigratorValidate; EvModelValidate].
Proof.
  assert (required_ok conf_zero_MigFrequency) as Hreq.
  { repeat split; try discriminate. eexists; split; reflexivity. }
  split; [exact Hreq|].
  apply (NewGA_zero_MigFrequency tt conf_zero_MigFrequency world0 good Hreq);
    reflexivity.
Defined.

(** [conf_own_RNG] is valid. *)
Lemma valid_conf_own_RNG : valid conf_own_RNG.
Proof.
  split; [|split].
  - repeat split; try discriminate. eexists; split; reflexivity.
  - intros g [= <-]. split; [reflexivity | discriminate].
  - intros s [= <-]. reflexivity.
Defined.

(** With all three collaborators present, three calls are on record. *)
Lemma NewGA_validates_each_once_witness :
  ∃ l w', NewGA tt conf_own_RNG world9 = Some ((Some l, None), w') ∧
          trace w' = [EvSpeciatorValidate; EvMigratorValidate; EvModelValidate].
Proof.
  apply (NewGA_validates_each_once tt conf_own_RNG world9 valid_conf_own_RNG).
Defined.

(** A construction that fails on [NPops = 0] has created a [Rand] all the
    same. *)
Lemma NewGA_creates_Rand_before_checks_witness :
  RNG conf_no_pops_bad_model = None ∧
  ∃ p err w' r, NewGA tt conf_no_pops_bad_model world0 = Some ((p, err), w') ∧
                rands world0 !! r = None ∧
                rands w' = <[r := seeded 1700000000000000000]> (rands world0).
Proof.
  split; [reflexivity|].
  apply (NewGA_creates_Rand_before_checks tt conf_no_pops_bad_model world0 eq_refl).
Defined.

(** In [world0] no [Rand] lives at address [9]: the pointer of
    [conf_own_RNG] dangles, and is kept. *)
Lemma NewGA_keeps_supplied_RNG_witness :
  rands world0 !! 9%positive = None ∧
  ∃ p err w', NewGA tt conf_own_RNG world0 = Some ((p, err), w') ∧
              rands w' = rands world0 ∧
              ∀ l, p = Some l →
                   ∃ g, gas w' !! l = Some g ∧ RNG (ga_GAConfig g) = Some 9%positive.
Proof.
  split; [reflexivity|].
  apply (NewGA_keeps_supplied_RNG tt conf_own_RNG world0 9%positive eq_refl).
Defined.

(** The [GA] built from [conf_own_RNG] holds [conf_own_RNG]. *)
Lemma NewGA_stores_config_verbatim_witness :
  ∃ l w', NewGA tt conf_own_RNG world9 = Some ((Some l, None), w') ∧
          gas world9 !! l = None ∧
          gas w' !! l = Some {| ga_GAConfig := conf_own_RNG; ga_fields := tt |}.
Proof.
  apply (NewGA_stores_config_verbatim tt conf_own_RNG world9 9%positive
           valid_conf_own_RNG eq_refl eq_refl).
Defined.

(** The default configuration, then [conf_annealing]: two [GA]s, two
    [Rand]s. *)
Lemma NewGA_twice_witness :
  ∃ l1 g1 w1 l2 g2 w2,
    NewGA tt (NewDefaultGAConfig good) world0 = Some ((Some l1, None), w1) ∧
    NewGA tt conf_annealing w1 = Some ((Some l2, None), w2) ∧
    l1 ≠ l2 ∧
    gas w1 !! l1 = Some g1 ∧ gas w2 !! l1 = Some g1 ∧ gas w2 !! l2 = Some g2 ∧
    RNG (ga_GAConfig g1) ≠ RNG (ga_GAConfig g2).
Proof.
  destruct (NewGA_twice tt (NewDefaultGAConfig good) conf_annealing world0
              valid_NewDefaultGAConfig valid_conf_annealing)
    as (l1 & g1 & w1 & l2 & g2 & w2 & H1 & H2 & Hne & Hg1 & Hg1' & Hg2 & Hr).
  exists l1, g1, w1, l2, g2, w2. repeat split; try assumption.
  apply (Hr eq_refl eq_refl).
Defined.

(** [conf_with_options] and the default configuration agree on the checked
    fields. *)
Lemma NewGA_ignores_unchecked_fields_witness :
  ∃ p err w1 w2,
    NewGA tt conf_with_options world0 = Some ((p, err), w1) ∧
    NewGA tt (NewDefaultGAConfig good) world0 = Some ((p, err), w2) ∧
    trace w1 = trace w2.
Proof.
  apply (NewGA_ignores_unchecked_fields tt conf_with_options (NewDefaultGAConfig good)
           world0); reflexivity.
Defined.
